(** * Version 8 UUID generation (version8.go)

    A shallow embedding of [NewV8], [NewV8FromReader], [NewV8TimeBased] and
    [makeV8], with the byte-level helpers of Go's standard library they call
    ([binary.BigEndian.PutUint16], [binary.BigEndian.PutUint64], [copy],
    [io.ReadFull]).

    Conventions.
    - A Go [byte] is a [Byte.byte]; arithmetic on it goes through [U8.to_Z]
      and back through [U8.of_Z], which keeps the low eight bits as Go's
      conversion [byte(x)] does.
    - [uint16] and [uint64] values are integers of [Z]; every conversion and
      every wrapping operation of the source is written out as a [mod].
    - A [UUID] ([[16]byte]) and a [[]byte] are lists; a slice [s[lo:hi]] of a
      buffer is the index window [lo..hi) of the buffer's list, so that a
      write through the slice is a write into the buffer.
    - The package variables [lastTimestamp] and [sequence] are the two fields
      of [SeqState], passed in and out of [NewV8TimeBased]. *)

From Stdlib Require Import ZArith Lia List Strings.String.
From Stdlib Require Init.Byte Strings.Byte.
From stdpp Require Import base list.

Local Open Scope Z_scope.

(** ** Bytes *)

Abbreviation byte := Byte.byte.

#[global] Instance byte_inhabited : Inhabited byte := populate Byte.x00.
#[global] Instance byte_eq_dec : EqDecision byte := Byte.byte_eq_dec.

Module U8.

(** The unsigned value of a byte, [0 .. 255]. *)
Definition to_Z (b : byte) : Z := Z.of_N (Byte.to_N b).

(** Go's [byte(z)]: the low eight bits of [z]. *)
Definition of_Z (z : Z) : byte :=
  match Byte.of_N (Z.to_N (z mod 256)) with
  | Some b => b
  | None => Byte.x00
  end.

(** [b & m] and [b | m] on bytes. *)
Definition and (b : byte) (m : Z) : byte := of_Z (Z.land (to_Z b) m).
Definition or (b : byte) (m : Z) : byte := of_Z (Z.lor (to_Z b) m).

End U8.

(** [(b & 0x0F) | 0x80]: version 8 in the top nibble. *)
Definition set_version (b : byte) : byte := U8.or (U8.and b 0x0F) 0x80.

(** [(b & 0x3F) | 0x80]: the RFC 4122 variant in the top two bits. *)
Definition set_variant (b : byte) : byte := U8.or (U8.and b 0x3F) 0x80.

(** The top nibble of a byte and its top two bits. *)
Definition top_nibble (b : byte) : Z := Z.shiftr (U8.to_Z b) 4.
Definition top_2_bits (b : byte) : Z := Z.shiftr (U8.to_Z b) 6.

(** ** Unsigned conversions *)

Definition uint16 (z : Z) : Z := z mod 2 ^ 16.
Definition uint64 (z : Z) : Z := z mod 2 ^ 64.

(** ** Slices and [copy] *)

(** [s[lo:hi]] as a value. *)
Definition slice (lo hi : nat) (s : list byte) : list byte :=
  take (hi - lo) (drop lo s).

(** [copy(s[lo:hi], src)]: Go copies [min(hi - lo, len(src))] elements. *)
Definition copy (lo hi : nat) (src s : list byte) : list byte :=
  list_inserts lo (take (hi - lo) src) s.

(** ** encoding/binary, big endian *)

Module BigEndian.

(** The bytes [PutUint16] stores: [byte(v >> 8)], [byte(v)]. *)
Definition bytes16 (v : Z) : list byte :=
  [U8.of_Z (Z.shiftr v 8); U8.of_Z v].

(** The bytes [PutUint64] stores: [byte(v >> 56)] ... [byte(v)]. *)
Definition bytes64 (v : Z) : list byte :=
  [U8.of_Z (Z.shiftr v 56); U8.of_Z (Z.shiftr v 48);
   U8.of_Z (Z.shiftr v 40); U8.of_Z (Z.shiftr v 32);
   U8.of_Z (Z.shiftr v 24); U8.of_Z (Z.shiftr v 16);
   U8.of_Z (Z.shiftr v 8); U8.of_Z v].

(** [PutUint16(s[off:], v)] and [PutUint64(s[off:], v)] on a buffer that
    holds the bytes written (the callers below only pass such windows). *)
Definition PutUint16 (off : nat) (v : Z) (s : list byte) : list byte :=
  list_inserts off (bytes16 v) s.
Definition PutUint64 (off : nat) (v : Z) (s : list byte) : list byte :=
  list_inserts off (bytes64 v) s.

(** [Uint16(b)]: [uint16(b[1]) | uint16(b[0]) << 8]. *)
Definition Uint16 (b : list byte) : Z :=
  Z.lor (U8.to_Z (b !!! 1%nat)) (Z.shiftl (U8.to_Z (b !!! 0%nat)) 8).

End BigEndian.

(** ** Errors and readers *)

Inductive error : Type :=
  | EOF
  | ErrUnexpectedEOF
  | ErrOther (msg : string).

(** An [io.Reader] as far as one [io.ReadFull] sees it: the bytes it still
    delivers, and the error it reports once they are used up.  Each generator
    reads from its reader once; what the reader holds afterwards belongs to
    the caller and is not part of a generator's result. *)
Record Reader : Type := mkReader {
  pending : list byte;
  fault : error
}.

Module io.

(** The error of [io.ReadFull] for a window of [want] bytes: none when the
    reader delivers them all; otherwise the reader's, with [EOF] turned
    into [ErrUnexpectedEOF] if some bytes were read. *)
Definition read_error (r : Reader) (want : nat) : option error :=
  if decide (want <= length (pending r))%nat then None
  else Some match fault r, take want (pending r) with
            | EOF, _ :: _ => ErrUnexpectedEOF
            | e, _ => e
            end.

(** [io.ReadFull(r, s[off:])]: reads exactly [len(s) - off] bytes into the
    window.  When the reader runs dry first, the bytes it did deliver are
    in the buffer all the same. *)
Definition ReadFull (r : Reader) (off : nat) (s : list byte)
  : list byte * option error :=
  let want := (length s - off)%nat in
  (list_inserts off (take want (pending r)) s, read_error r want).

End io.

(** ** The UUID type *)

Definition UUID : Type := list byte.

(** [var uuid UUID] and the package's [Nil]: sixteen zero bytes. *)
Definition Nil : UUID := replicate 16 Byte.x00.

(** The result of a generator: the [UUID] and the [error] ([None] is nil). *)
Definition result : Type := UUID * option error.

(** ** NewV8 *)

(** Modelled from the spec: [NewRandom], the package's general-purpose random
    UUID generator, is not part of version8.go.  The spec describes it as the
    capability "produce 16 uniformly random bytes, fallibly" whose failure is
    returned "alongside a sentinel Nil (all-zero) Identifier". *)
Definition NewRandom (rander : Reader) : result :=
  match io.ReadFull rander 0 Nil with
  | (uuid, None) => (uuid, None)
  | (_, Some err) => (Nil, Some err)
  end.

(** The body of [NewV8] after the call [uuid, err := NewRandom()]. *)
Definition NewV8_of (r : result) : result :=
  match r with
  | (uuid, Some err) => (uuid, Some err)
  | (uuid, None) =>
      let uuid := <[6%nat := set_version (uuid !!! 6%nat)]> uuid in
      let uuid := <[8%nat := set_variant (uuid !!! 8%nat)]> uuid in
      (uuid, None)
  end.

Definition NewV8 (rander : Reader) : result := NewV8_of (NewRandom rander).

(** ** NewV8FromReader *)

Definition NewV8FromReader
    (rander : Reader) (customA customB : Z) (random : option Reader) : result :=
  let uuid := Nil in
  (* Encode custom_a (48 bits) *)
  let uuid := BigEndian.PutUint64 0 customA uuid in
  let uuid := copy 0 6 (slice 2 8 uuid) uuid in
  (* Set version and custom_b (12 bits) *)
  let uuid := <[6%nat := set_version (uuid !!! 6%nat)]> uuid in
  let uuid := BigEndian.PutUint16 6 (Z.lor (uint16 customB) 0x8000) uuid in
  (* Fill custom_c (62 bits) *)
  let random := match random with None => rander | Some r => r end in
  match io.ReadFull random 8 uuid with
  | (_, Some err) => (Nil, Some err)
  | (uuid, None) =>
      let uuid := <[8%nat := set_variant (uuid !!! 8%nat)]> uuid in
      (uuid, None)
  end.

(** ** NewV8TimeBased *)

(** The package variables [lastTimestamp uint64] and [sequence uint16]. *)
Record SeqState : Type := mkSeqState {
  lastTimestamp : Z;
  sequence : Z
}.

(** The branch under [timeMu]: the state after a call that observed
    [timestamp]. *)
Definition next_state (st : SeqState) (timestamp : Z) : SeqState :=
  if timestamp =? lastTimestamp st
  then {| lastTimestamp := lastTimestamp st;
          sequence := uint16 (sequence st + 1) |}
  else {| lastTimestamp := timestamp; sequence := 0 |}.

(** [now] is the value of [time.Now().UnixNano()].  The call runs with
    [timeMu] held from the state update to its return, so it is one step on
    [SeqState]. *)
Definition NewV8TimeBased
    (st : SeqState) (now : Z) (random : option Reader) : result * SeqState :=
  let uuid := Nil in
  let timestamp := uint64 now in
  let st := next_state st timestamp in
  (* Encode timestamp into custom_a (48 bits) *)
  let uuid := BigEndian.PutUint64 0 timestamp uuid in
  let uuid := copy 0 6 (slice 2 8 uuid) uuid in
  (* Set version and variant *)
  let uuid := <[6%nat := set_version (uuid !!! 6%nat)]> uuid in
  let uuid := <[8%nat := set_variant (uuid !!! 8%nat)]> uuid in
  (* Add sequence to custom_c (16 bits) *)
  let uuid := BigEndian.PutUint16 8 (sequence st) uuid in
  (* Fill the rest with custom_c *)
  match random with
  | None =>
      let uuid :=
        foldl (fun u i => <[i := Byte.x00]> u) uuid (seq 10 6) in
      ((uuid, None), st)
  | Some r =>
      match io.ReadFull r 10 uuid with
      | (_, Some err) => ((Nil, Some err), st)
      | (uuid, None) => ((uuid, None), st)
      end
  end.

(** ** makeV8 *)

(** The package's random source as [randomBits] sees it: an unbounded supply
    of bytes and the position of the next one. *)
Record Rand : Type := mkRand {
  supply : nat -> byte;
  cursor : nat
}.

(** Modelled from the spec: [randomBits], which is not part of version8.go.
    The spec says of the Layout Encoder that "any field with no supplied span
    is filled with freshly drawn random bytes" and that there is "no error
    path": [randomBits n g] draws the next [n] bytes of the supply. *)
Definition randomBits (n : nat) (g : Rand) : list byte * Rand :=
  (map (supply g) (seq (cursor g) n),
   {| supply := supply g; cursor := (cursor g + n)%nat |}).

(** What [makeV8] works on: the contents of the slice [uuid] it is handed and
    the random source. *)
Record Mem : Type := mkMem {
  buf : list byte;
  rng : Rand
}.

(** A run either completes or stops in a run-time panic (index or slice
    bounds out of range); both carry the memory reached. *)
Inductive outcome : Type :=
  | Done (m : Mem)
  | Panic (m : Mem).

Definition stmt : Type := Mem -> outcome.

Definition then_ (s1 s2 : stmt) : stmt :=
  fun m => match s1 m with
           | Done m' => s2 m'
           | Panic m' => Panic m'
           end.

Declare Scope stmt_scope.
Delimit Scope stmt_scope with stmt.
Bind Scope stmt_scope with stmt.
Notation "s1 ;; s2" := (then_ s1 s2)
  (at level 100, s2 at level 200, right associativity) : stmt_scope.

(** [_ = uuid[i]] *)
Definition bounds_check (i : nat) : stmt :=
  fun m => if decide (i < length (buf m))%nat then Done m else Panic m.

(** [uuid[i] = f(uuid[i])] *)
Definition update (i : nat) (f : byte -> byte) : stmt :=
  fun m =>
    if decide (i < length (buf m))%nat
    then Done {| buf := <[i := f (buf m !!! i)]> (buf m); rng := rng m |}
    else Panic m.

(** The upper end of [uuid[lo:hi]] and of [uuid[lo:]]. *)
Definition upper (hi : option nat) (m : Mem) : nat :=
  match hi with
  | Some h => h
  | None => length (buf m)
  end.

(** A slice expression [uuid[lo:hi]] panics unless [lo <= hi <= cap(uuid)].
    The capacity is taken to be the length: [makeV8] reaches its slice
    expressions only after [uuid[15]] was found in range, and every upper end
    it uses is then within the length, hence within any capacity. *)
Definition slice_ok (lo hi : nat) (m : Mem) : Prop :=
  (lo <= hi <= length (buf m))%nat.

(** [copy(uuid[lo:hi], src)] *)
Definition copy_to (lo : nat) (hi : option nat) (src : list byte) : stmt :=
  fun m =>
    let h := upper hi m in
    if decide (slice_ok lo h m)
    then Done {| buf := copy lo h src (buf m); rng := rng m |}
    else Panic m.

(** [randomBits(uuid[lo:hi])] *)
Definition random_to (lo : nat) (hi : option nat) : stmt :=
  fun m =>
    let h := upper hi m in
    if decide (slice_ok lo h m)
    then let '(bs, g) := randomBits (h - lo) (rng m) in
         Done {| buf := list_inserts lo bs (buf m); rng := g |}
    else Panic m.

(** [if custom != nil { copy(uuid[lo:hi], custom) } else { randomBits(uuid[lo:hi]) }];
    [None] is the nil slice. *)
Definition fill (lo : nat) (hi : option nat) (custom : option (list byte)) : stmt :=
  match custom with
  | Some c => copy_to lo hi c
  | None => random_to lo hi
  end.

Definition makeV8 (customA customB customC : option (list byte)) : stmt :=
 (bounds_check 15 ;;
  (* Fill custom_a (48 bits) *)
  fill 0 (Some 6%nat) customA ;;
  (* Set version and fill custom_b (12 bits) *)
  update 6 set_version ;;
  fill 6 (Some 8%nat) customB ;;
  update 8 set_variant ;;
  (* Fill custom_c (62 bits) *)
  fill 8 None customC)%stmt.

(** ** Reading an identifier back *)

(** The big-endian number a byte string spells. *)
Definition be_value (s : list byte) : Z :=
  foldl (fun acc b => acc * 256 + U8.to_Z b) 0 s.

(** Bits [lo .. hi] of a 16-byte identifier, as a number; bit 0 is the most
    significant bit of byte 0 and bit 127 the least significant of byte 15
    (the numbering of the layout diagram in [makeV8]). *)
Definition bits (lo hi : Z) (u : UUID) : Z :=
  (be_value u / 2 ^ (127 - hi)) mod 2 ^ (hi - lo + 1).

(** The three fields of the layout: custom_a is bits 0-47, custom_b bits
    52-63, custom_c bits 66-127. *)
Definition custom_a (u : UUID) : Z := bits 0 47 u.
Definition custom_b (u : UUID) : Z := bits 52 63 u.
Definition custom_c (u : UUID) : Z := bits 66 127 u.

(** The format invariant: version 8 in the top nibble of byte 6, variant
    [10] in the top two bits of byte 8. *)
Definition is_v8 (u : UUID) : Prop :=
  top_nibble (u !!! 6%nat) = 8 /\ top_2_bits (u !!! 8%nat) = 2.

(** The reader hands over [n] bytes without failing. *)
Definition delivers (r : Reader) (n : nat) : Prop :=
  (n <= length (pending r))%nat.

(** The reader [NewV8FromReader] ends up reading from. *)
Definition source (rander : Reader) (random : option Reader) : Reader :=
  match random with None => rander | Some r => r end.

(** Bytes 0-9 of a time-based identifier for the tick [t] and the sequence
    number [sq]: they do not depend on the reader. *)
Definition time_based_head (t sq : Z) : list byte :=
  [U8.of_Z (Z.shiftr t 40); U8.of_Z (Z.shiftr t 32);
   U8.of_Z (Z.shiftr t 24); U8.of_Z (Z.shiftr t 16);
   U8.of_Z (Z.shiftr t 8); U8.of_Z t;
   set_version (U8.of_Z (Z.shiftr t 8)); U8.of_Z t;
   U8.of_Z (Z.shiftr sq 8); U8.of_Z sq].

(** A statement is safe from [n] when it completes on every buffer of at
    least [n] bytes and leaves the buffer's length as it was. *)
Definition safe_from (n : nat) (s : stmt) : Prop :=
  forall m : Mem,
    (n <= length (buf m))%nat ->
    exists m' : Mem, s m = Done m' /\ length (buf m') = length (buf m).

(** ** Sample inputs *)

(** A reader of sixteen zero bytes, and one that fails after two bytes. *)
Definition zero_reader : Reader := mkReader (replicate 16 Byte.x00) EOF.
Definition short_reader : Reader :=
  mkReader [Byte.x01; Byte.x02] (ErrOther "entropy exhausted").

(** The split-field identifier for the spec's sample values and a reader of
    zero bytes. *)
Definition sample_result : result :=
  NewV8FromReader zero_reader 0x0102030405 0x0AB (Some zero_reader).

(** A random supply of zero bytes. *)
Definition zero_rand : Rand := mkRand (fun _ => Byte.x00) 0.

(** ** Successive calls *)

(** A caller that invokes [NewV8TimeBased] once per entry of [calls], each
    with the clock reading and the reader of the entry, the package state
    going from one call to the next; the results come in call order. *)
Fixpoint run (st : SeqState) (calls : list (Z * option Reader))
  : list result * SeqState :=
  match calls with
  | [] => ([], st)
  | (now, random) :: rest =>
      let '(res, st1) := NewV8TimeBased st now random in
      let '(out, st2) := run st1 rest in
      (res :: out, st2)
  end.

(** Calls that all observe the clock reading [now], one per reader. *)
Definition same_tick (now : Z) (readers : list (option Reader))
  : list (Z * option Reader) :=
  map (fun random => (now, random)) readers.

(** ** makeV8 on supplied spans *)

(** The buffer [makeV8] leaves when all three spans are non-nil: the three
    copies and the two stamps, in the order of the source. *)
Definition filled (a b c s : list byte) : list byte :=
  let s := copy 0 6 a s in
  let s := <[6%nat := set_version (s !!! 6%nat)]> s in
  let s := copy 6 8 b s in
  let s := <[8%nat := set_variant (s !!! 8%nat)]> s in
  copy 8 (length s) c s.

(** * Properties *)

(** ** Bytes *)

Module U8Facts.

Lemma to_Z_range (b : byte) : 0 <= U8.to_Z b < 256.
Proof. destruct b; vm_compute; split; congruence. Qed.

Lemma to_of_Z (z : Z) : U8.to_Z (U8.of_Z z) = z mod 256.
Proof.
  unfold U8.to_Z, U8.of_Z.
  pose proof (Z.mod_pos_bound z 256 eq_refl) as Hz.
  destruct (Byte.of_N (Z.to_N (z mod 256))) as [b|] eqn:E.
  - apply Byte.to_of_N in E. rewrite E. lia.
  - apply Byte.of_N_None_iff in E. lia.
Qed.

Lemma set_version_nibble (b : byte) : top_nibble (set_version b) = 8.
Proof. destruct b; reflexivity. Qed.

Lemma set_variant_bits (b : byte) : top_2_bits (set_variant b) = 2.
Proof. destruct b; reflexivity. Qed.

(** [set_variant] keeps the low six bits. *)
Lemma set_variant_value (b : byte) :
  U8.to_Z (set_variant b) = 128 + U8.to_Z b mod 64.
Proof. destruct b; reflexivity. Qed.

End U8Facts.

(** ** Lists of known length *)

(** Name the first element of [l], whose length [H] bounds from below. *)
Ltac uncons l H :=
  let b := fresh "b" in
  destruct l as [|b l]; [simpl in H; lia|]; simpl in H.

(** ** io.ReadFull *)

Module ioFacts.

Lemma read_error_None (r : Reader) (n : nat) :
  io.read_error r n = None <-> delivers r n.
Proof.
  unfold io.read_error, delivers.
  destruct (decide _); split; intros; congruence || tauto.
Qed.

Lemma read_error_Some (r : Reader) (n : nat) :
  ~ delivers r n -> exists err, io.read_error r n = Some err.
Proof.
  intros H. destruct (io.read_error r n) as [e|] eqn:E; [eauto|].
  apply read_error_None in E. contradiction.
Qed.

Lemma delivers_dec (r : Reader) (n : nat) : {delivers r n} + {~ delivers r n}.
Proof. unfold delivers. apply le_dec. Qed.

End ioFacts.

(** ** NewV8FromReader, byte by byte *)

Section FromReader.

Variables (rander : Reader) (customA customB : Z) (random : option Reader).

(** The identifier of a call whose reader delivers [r0 .. r7]. *)
Lemma NewV8FromReader_success (r0 r1 r2 r3 r4 r5 r6 r7 : byte) (rest : list byte) :
  pending (source rander random)
  = r0 :: r1 :: r2 :: r3 :: r4 :: r5 :: r6 :: r7 :: rest ->
  NewV8FromReader rander customA customB random
  = ([U8.of_Z (Z.shiftr customA 40); U8.of_Z (Z.shiftr customA 32);
      U8.of_Z (Z.shiftr customA 24); U8.of_Z (Z.shiftr customA 16);
      U8.of_Z (Z.shiftr customA 8); U8.of_Z customA;
      U8.of_Z (Z.shiftr (Z.lor (uint16 customB) 0x8000) 8);
      U8.of_Z (Z.lor (uint16 customB) 0x8000);
      set_variant r0; r1; r2; r3; r4; r5; r6; r7], None).
Proof.
  intros H. unfold NewV8FromReader, io.ReadFull.
  change (match random with None => rander | Some r => r end)
    with (source rander random).
  unfold io.read_error. rewrite H. reflexivity.
Qed.

(** The result of a call whose reader fails. *)
Lemma NewV8FromReader_failure :
  ~ delivers (source rander random) 8 ->
  NewV8FromReader rander customA customB random
  = (Nil, io.read_error (source rander random) 8)
  /\ io.read_error (source rander random) 8 <> None.
Proof.
  intros H. destruct (ioFacts.read_error_Some _ _ H) as [err E].
  unfold NewV8FromReader, io.ReadFull.
  change (match random with None => rander | Some r => r end)
    with (source rander random).
  match goal with
  | |- context [io.read_error _ ?n] => change n with 8%nat
  end.
  rewrite E. split; [reflexivity | discriminate].
Qed.

Lemma NewV8FromReader_ok_delivers (u : UUID) :
  NewV8FromReader rander customA customB random = (u, None) ->
  delivers (source rander random) 8.
Proof.
  intros H. destruct (ioFacts.delivers_dec (source rander random) 8) as [|n];
    [assumption|].
  apply NewV8FromReader_failure in n as [E Hne]. congruence.
Qed.

End FromReader.

(** ** Field positions, byte by byte *)

Lemma be_value_bound (s : list byte) :
  0 <= be_value s < 256 ^ Z.of_nat (length s).
Proof.
  unfold be_value.
  induction s as [|b s IH] using rev_ind; [simpl; lia|].
  rewrite foldl_snoc, length_app. simpl length.
  pose proof (U8Facts.to_Z_range b).
  replace (Z.of_nat (length s + 1)) with (Z.of_nat (length s) + 1) by lia.
  rewrite Z.pow_add_r by lia. lia.
Qed.

Section Fields.

Variables x0 x1 x2 x3 x4 x5 x6 x7 x8 x9 x10 x11 x12 x13 x14 x15 : byte.

Let u : UUID :=
  [x0; x1; x2; x3; x4; x5; x6; x7; x8; x9; x10; x11; x12; x13; x14; x15].
Let a : Z := be_value [x0; x1; x2; x3; x4; x5].
Let b : Z := be_value [x6; x7].
Let c : Z := be_value [x8; x9; x10; x11; x12; x13; x14; x15].

Lemma be_value_16 : be_value u = a * 2 ^ 80 + b * 2 ^ 64 + c.
Proof. unfold u, a, b, c, be_value. cbn [foldl]. ring. Qed.

Lemma field_bounds : 0 <= a < 2 ^ 48 /\ 0 <= b < 2 ^ 16 /\ 0 <= c < 2 ^ 64.
Proof.
  repeat split;
    first [apply (be_value_bound [x0; x1; x2; x3; x4; x5])
          | apply (be_value_bound [x6; x7])
          | apply (be_value_bound [x8; x9; x10; x11; x12; x13; x14; x15])].
Qed.

(** Reduce a statement about [bits lo hi u] to one on [a], [b], [c]. *)
Ltac by_parts :=
  unfold custom_a, custom_b, custom_c, bits; rewrite be_value_16;
  pose proof field_bounds as (Ha & Hb & Hc);
  clearbody a b c; cbn [Z.sub Z.add Z.opp Z.pos_sub Pos.add Pos.succ
                        Pos.pred_double Z.succ_double Z.pred_double
                        Z.double];
  Z.div_mod_to_equations; lia.

Lemma custom_a_bytes : custom_a u = a.
Proof. by_parts. Qed.

Lemma custom_b_bytes : custom_b u = b mod 2 ^ 12.
Proof. by_parts. Qed.

Lemma custom_c_bytes : custom_c u = c mod 2 ^ 62.
Proof. by_parts. Qed.

(** Bits 64-79 are bytes 8 and 9. *)
Lemma bits_64_79_bytes : bits 64 79 u = be_value [x8; x9].
Proof.
  assert (c = be_value [x8; x9] * 2 ^ 48
              + be_value [x10; x11; x12; x13; x14; x15]) as Hsplit
    by (unfold c, be_value; cbn [foldl]; ring).
  pose proof (be_value_bound [x8; x9]) as Hhi.
  pose proof (be_value_bound [x10; x11; x12; x13; x14; x15]) as Hlo.
  change (256 ^ _) with (2 ^ 16) in Hhi. change (256 ^ _) with (2 ^ 48) in Hlo.
  generalize dependent (be_value [x8; x9]).
  generalize dependent (be_value [x10; x11; x12; x13; x14; x15]).
  intros lo Hlo hi Hsplit Hhi.
  unfold bits. rewrite be_value_16, Hsplit.
  pose proof field_bounds as (Ha & Hb & _). clearbody a b c.
  change (127 - 79) with 48. change (79 - 64 + 1) with 16.
  Z.div_mod_to_equations. lia.
Qed.

End Fields.

(** ** Integer facts behind the encodings *)

Module Arith.

(** [x & 0x8000] is bit 15 of [x], in place. *)
Lemma land_0x8000 (x : Z) : Z.land x 0x8000 = (x / 2 ^ 15) mod 2 * 2 ^ 15.
Proof.
  apply Z.bits_inj'. intros n Hn.
  rewrite Z.land_spec. change 0x8000 with (2 ^ 15).
  rewrite Z.pow2_bits_eqb, Z.mul_pow2_bits by lia.
  rewrite <- Z.testbit_spec' by lia.
  destruct (Z.eqb_spec 15 n) as [<-|Hne].
  - change (15 - 15) with 0. rewrite Z.b2z_bit0. apply andb_true_r.
  - rewrite andb_false_r. symmetry.
    destruct (Z.testbit x 15); simpl Z.b2z.
    + destruct (n - 15) eqn:E; try reflexivity; lia.
    + apply Z.bits_0.
Qed.

(** [x | 0x8000] sets bit 15 and keeps every other bit. *)
Lemma lor_0x8000 (x : Z) :
  Z.lor x 0x8000 = x + 2 ^ 15 - (x / 2 ^ 15) mod 2 * 2 ^ 15.
Proof.
  pose proof (Z.add_lor_land x 0x8000) as H.
  rewrite land_0x8000 in H. change 0x8000 with (2 ^ 15) in *. lia.
Qed.

Lemma shiftr_div (v : Z) (k : Z) : 0 <= k -> Z.shiftr v k = v / 2 ^ k.
Proof. intros. apply Z.shiftr_div_pow2. assumption. Qed.

(** The six low bytes of [v], most significant first, spell [v mod 2^48]. *)
Lemma low48 (v : Z) :
  be_value [U8.of_Z (Z.shiftr v 40); U8.of_Z (Z.shiftr v 32);
            U8.of_Z (Z.shiftr v 24); U8.of_Z (Z.shiftr v 16);
            U8.of_Z (Z.shiftr v 8); U8.of_Z v]
  = v mod 2 ^ 48.
Proof.
  unfold be_value. simpl foldl.
  rewrite !U8Facts.to_of_Z, !shiftr_div by lia.
  Z.div_mod_to_equations. lia.
Qed.

(** The two bytes [PutUint16] stores spell [v mod 2^16]. *)
Lemma low16 (v : Z) :
  be_value [U8.of_Z (Z.shiftr v 8); U8.of_Z v] = v mod 2 ^ 16.
Proof.
  unfold be_value. simpl foldl.
  rewrite !U8Facts.to_of_Z, !shiftr_div by lia.
  Z.div_mod_to_equations. lia.
Qed.

(** The low twelve bits of [uint16(customB) | 0x8000] are those of
    [customB]. *)
Lemma custom_b_low12 (customB : Z) :
  Z.lor (uint16 customB) 0x8000 mod 2 ^ 12 = customB mod 2 ^ 12.
Proof.
  rewrite lor_0x8000. unfold uint16.
  Z.div_mod_to_equations. lia.
Qed.

(** Bits 12-14 of [customB] reach the top nibble of byte 6. *)
Lemma custom_b_top_nibble (customB : Z) :
  top_nibble (U8.of_Z (Z.shiftr (Z.lor (uint16 customB) 0x8000) 8))
  = 8 + (customB / 2 ^ 12) mod 8.
Proof.
  unfold top_nibble.
  rewrite U8Facts.to_of_Z, !shiftr_div, lor_0x8000 by lia. unfold uint16.
  Z.div_mod_to_equations. lia.
Qed.

(** Stamping the variant on the first of eight bytes leaves their low 62
    bits alone. *)
Lemma variant_keeps_low62 (r0 r1 r2 r3 r4 r5 r6 r7 : byte) :
  be_value [set_variant r0; r1; r2; r3; r4; r5; r6; r7] mod 2 ^ 62
  = be_value [r0; r1; r2; r3; r4; r5; r6; r7] mod 2 ^ 62.
Proof.
  unfold be_value. simpl foldl. rewrite U8Facts.set_variant_value.
  pose proof (U8Facts.to_Z_range r0).
  Z.div_mod_to_equations. lia.
Qed.

End Arith.

(** ** NewV8 *)

Section Random.

Variable rander : Reader.

Lemma NewRandom_failure :
  ~ delivers rander 16 ->
  NewRandom rander = (Nil, io.read_error rander 16)
  /\ io.read_error rander 16 <> None.
Proof.
  intros H. destruct (ioFacts.read_error_Some _ _ H) as [err E].
  unfold NewRandom, io.ReadFull. change (length Nil - 0)%nat with 16%nat.
  rewrite E. split; [reflexivity | discriminate].
Qed.

Lemma NewRandom_success :
  delivers rander 16 -> NewRandom rander = (take 16 (pending rander), None).
Proof.
  intros H. pose proof H as E. apply ioFacts.read_error_None in E.
  unfold NewRandom, io.ReadFull. change (length Nil - 0)%nat with 16%nat.
  rewrite E. f_equal. unfold delivers in H.
  destruct rander as [l e]; simpl in *.
  do 16 (uncons l H). reflexivity.
Qed.

(** [NewV8] stamps after the random fill: its identifiers are version 8. *)
Lemma NewV8_is_v8 (u : UUID) : NewV8 rander = (u, None) -> is_v8 u.
Proof.
  unfold NewV8. destruct (ioFacts.delivers_dec rander 16) as [H|H].
  - rewrite (NewRandom_success H). unfold delivers in H.
    destruct rander as [l e]; simpl in *.
    do 16 (uncons l H). cbn. intros [= <-]. split; cbn.
    + apply U8Facts.set_version_nibble.
    + apply U8Facts.set_variant_bits.
  - destruct (NewRandom_failure H) as [E Hne]. rewrite E.
    destruct (io.read_error rander 16); [discriminate | contradiction].
Qed.

End Random.

(** ** The sequence state *)

Lemma next_state_fresh (st : SeqState) (t : Z) :
  t <> lastTimestamp st -> next_state st t = mkSeqState t 0.
Proof.
  intros H. unfold next_state.
  destruct (Z.eqb_spec t (lastTimestamp st)); [contradiction | reflexivity].
Qed.

Lemma next_state_same (st : SeqState) (t : Z) :
  t = lastTimestamp st ->
  next_state st t = mkSeqState t ((sequence st + 1) mod 2 ^ 16).
Proof. intros ->. unfold next_state. rewrite Z.eqb_refl. reflexivity. Qed.

(** ** NewV8TimeBased, byte by byte *)

Section TimeBased.

Variables (st : SeqState) (now : Z).

Let t : Z := uint64 now.
Let st' : SeqState := next_state st t.

Let head : list byte := time_based_head t (sequence st').

Lemma NewV8TimeBased_nil :
  NewV8TimeBased st now None
  = ((head ++ replicate 6 Byte.x00, None), st').
Proof. reflexivity. Qed.

Lemma NewV8TimeBased_success (r : Reader) (r0 r1 r2 r3 r4 r5 : byte) (rest : list byte) :
  pending r = r0 :: r1 :: r2 :: r3 :: r4 :: r5 :: rest ->
  NewV8TimeBased st now (Some r)
  = ((head ++ [r0; r1; r2; r3; r4; r5], None), st').
Proof.
  intros H. unfold NewV8TimeBased, io.ReadFull, io.read_error.
  rewrite H. reflexivity.
Qed.

Lemma NewV8TimeBased_failure (r : Reader) :
  ~ delivers r 6 ->
  NewV8TimeBased st now (Some r) = ((Nil, io.read_error r 6), st')
  /\ io.read_error r 6 <> None.
Proof.
  intros H. destruct (ioFacts.read_error_Some _ _ H) as [err E].
  unfold NewV8TimeBased, io.ReadFull.
  match goal with
  | |- context [io.read_error _ ?n] => change n with 6%nat
  end.
  rewrite E. split; [reflexivity | discriminate].
Qed.

(** Whatever the reader does, a successful call returns the head above,
    followed by six more bytes. *)
Lemma NewV8TimeBased_ok (random : option Reader) (u : UUID) (s : SeqState) :
  NewV8TimeBased st now random = ((u, None), s) ->
  (exists tail : list byte, u = head ++ tail /\ length tail = 6%nat)
  /\ s = st'.
Proof.
  destruct random as [r|].
  - destruct (ioFacts.delivers_dec r 6) as [H|H].
    + unfold delivers in H. destruct r as [l e]; simpl in H.
      do 6 (uncons l H).
      erewrite NewV8TimeBased_success by reflexivity.
      intros [= <- <-]. split; [eexists; split|]; reflexivity.
    + destruct (NewV8TimeBased_failure r H) as [E Hne]. rewrite E.
      destruct (io.read_error r 6); [discriminate | contradiction].
  - rewrite NewV8TimeBased_nil. intros [= <- <-].
    split; [eexists; split|]; reflexivity.
Qed.

End TimeBased.

(** ** makeV8: bounds *)

Create HintDb safe discriminated.

Module makeV8Facts.

Lemma safe_then (n : nat) (s1 s2 : stmt) :
  safe_from n s1 -> safe_from n s2 -> safe_from n (s1 ;; s2)%stmt.
Proof.
  intros H1 H2 m Hm. destruct (H1 m Hm) as (m1 & E1 & L1).
  destruct (H2 m1) as (m2 & E2 & L2); [lia|].
  exists m2. unfold then_. rewrite E1. split; [assumption | lia].
Qed.

Lemma safe_bounds_check (n i : nat) :
  (i < n)%nat -> safe_from n (bounds_check i).
Proof.
  intros Hi m Hm. exists m. unfold bounds_check.
  destruct (decide _); [split; reflexivity | lia].
Qed.

Lemma safe_update (n i : nat) (f : byte -> byte) :
  (i < n)%nat -> safe_from n (update i f).
Proof.
  intros Hi m Hm. unfold update.
  destruct (decide _); [|lia].
  eexists. split; [reflexivity|]. simpl. apply length_insert.
Qed.

Lemma safe_fill (n lo : nat) (hi : option nat) (custom : option (list byte)) :
  (lo <= default n hi <= n)%nat -> safe_from n (fill lo hi custom).
Proof.
  intros Hb m Hm.
  assert (slice_ok lo (upper hi m) m) as Hs
    by (unfold slice_ok; destruct hi; simpl in *; lia).
  destruct custom as [c|]; unfold fill, copy_to, random_to;
    (destruct (decide _); [|contradiction]).
  - eexists. split; [reflexivity|]. simpl. apply length_inserts.
  - eexists. split; [reflexivity|]. simpl. apply length_inserts.
Qed.

#[export] Hint Resolve safe_bounds_check safe_update : safe.
#[export] Hint Extern 1 (safe_from _ (fill _ _ _)) =>
  apply safe_fill; simpl; lia : safe.
#[export] Hint Extern 1 (_ < _)%nat => lia : safe.

Lemma makeV8_safe (customA customB customC : option (list byte)) :
  safe_from 16 (makeV8 customA customB customC).
Proof. unfold makeV8. do 5 (apply safe_then; [auto with safe|]). auto with safe. Qed.

Lemma makeV8_panics (customA customB customC : option (list byte)) (m : Mem) :
  (length (buf m) < 16)%nat -> makeV8 customA customB customC m = Panic m.
Proof.
  intros H. unfold makeV8, then_ at 1, bounds_check.
  destruct (decide _); [lia | reflexivity].
Qed.

End makeV8Facts.

(** * The claims *)

(** ** C1: the format invariant *)

(** Where the invariant does hold: [NewV8] (lemma [NewV8_is_v8] above), the
    variant of [NewV8FromReader] and the version of [NewV8TimeBased]. *)
Lemma NewV8FromReader_variant (rander : Reader) (customA customB : Z)
    (random : option Reader) (u : UUID) :
  NewV8FromReader rander customA customB random = (u, None) ->
  top_2_bits (u !!! 8%nat) = 2
  /\ top_nibble (u !!! 6%nat) = 8 + (customB / 2 ^ 12) mod 8.
Proof.
  intros H. pose proof (NewV8FromReader_ok_delivers _ _ _ _ _ H) as D.
  unfold delivers in D. destruct (pending (source rander random)) as [|? l] eqn:E;
    [simpl in D; lia|].
  simpl in D. do 7 (uncons l D).
  rewrite (NewV8FromReader_success _ _ _ _ _ _ _ _ _ _ _ _ _ E) in H.
  injection H as <-. split.
  - apply U8Facts.set_variant_bits.
  - apply Arith.custom_b_top_nibble.
Qed.

Lemma NewV8TimeBased_version (st : SeqState) (now : Z) (random : option Reader)
    (u : UUID) (s : SeqState) :
  NewV8TimeBased st now random = ((u, None), s) ->
  top_nibble (u !!! 6%nat) = 8
  /\ top_2_bits (u !!! 8%nat) = (sequence s / 2 ^ 14) mod 4.
Proof.
  intros H. apply NewV8TimeBased_ok in H as [(tail & -> & _) ->]. split.
  - apply U8Facts.set_version_nibble.
  - unfold top_2_bits.
    cbn [time_based_head app lookup_total list_lookup_total].
    rewrite U8Facts.to_of_Z, !Arith.shiftr_div by lia.
    Z.div_mod_to_equations. lia.
Qed.

(** C1 (code defect).  The claim: every identifier a generator returns, and
    every buffer [makeV8] fills, has [1000] in the top nibble of byte 6 and
    [10] in the top two bits of byte 8.  The code breaks it in three places:
    [NewV8TimeBased] writes the sequence number over byte 8 after stamping the
    variant, so a call on a fresh tick returns byte 8 = 0x00;
    [NewV8FromReader] lets bits 12-14 of [customB] into the version nibble,
    so [customB = 0x1000] gives nibble [1001]; and [makeV8] stamps before it
    fills custom_b and custom_c, so all-zero spans give an all-zero buffer. *)
Theorem format_invariant_broken :
  let r1 := fst (NewV8TimeBased (mkSeqState 0 0) 1 None) in
  let r2 := NewV8FromReader zero_reader 0 0x1000 None in
  let zeros n := Some (replicate n Byte.x00) in
  (snd r1 = None /\ top_2_bits (fst r1 !!! 8%nat) = 0)
  /\ (snd r2 = None /\ top_nibble (fst r2 !!! 6%nat) = 9)
  /\ makeV8 (zeros 6%nat) (zeros 2%nat) (zeros 8%nat) (mkMem Nil zero_rand)
     = Done (mkMem Nil zero_rand)
  /\ top_nibble (Nil !!! 6%nat) = 0 /\ top_2_bits (Nil !!! 8%nat) = 0.
Proof. vm_compute. repeat split. Qed.

(** ** C2: the order of stamping and filling in makeV8 *)

(** C2 (code defect).  The claim: [makeV8] forces the version nibble and the
    variant bits after all three fields are written, so the stamps survive
    for every combination of spans.  The code stamps byte 6 before it fills
    custom_b and byte 8 before it fills custom_c: supplied spans end up in
    the buffer verbatim, bytes 6 and 8 included, and with no span the random
    bytes do; on zero input both stamps are lost. *)
Theorem makeV8_fill_overwrites_stamps
    (g : Rand) (a0 a1 a2 a3 a4 a5 b6 b7 c8 c9 c10 c11 c12 c13 c14 c15 : byte) :
  makeV8 (Some [a0; a1; a2; a3; a4; a5]) (Some [b6; b7])
         (Some [c8; c9; c10; c11; c12; c13; c14; c15]) (mkMem Nil g)
  = Done (mkMem [a0; a1; a2; a3; a4; a5; b6; b7;
                 c8; c9; c10; c11; c12; c13; c14; c15] g)
  /\ makeV8 None None None (mkMem (replicate 16 Byte.xff) zero_rand)
     = Done (mkMem Nil (mkRand (supply zero_rand) 16))
  /\ top_nibble (Nil !!! 6%nat) = 0 /\ top_2_bits (Nil !!! 8%nat) = 0.
Proof. repeat split. Qed.

(** ** C3: custom_b is masked to 12 bits *)

(** C3 (code defect).  The claim: the identifier depends only on
    [customB mod 2^12].  [0x1000] and [0] agree modulo [2^12], yet with every
    other input equal the two identifiers differ in byte 6 (0x90 against
    0x80): [uint16(customB)|0x8000] keeps bits 12-14. *)
Theorem customB_bits_12_to_14_leak :
  0x1000 mod 2 ^ 12 = 0 mod 2 ^ 12
  /\ NewV8FromReader zero_reader 0 0x1000 (Some zero_reader)
     = (replicate 6 Byte.x00 ++ [Byte.x90; Byte.x00; Byte.x80]
        ++ replicate 7 Byte.x00, None)
  /\ NewV8FromReader zero_reader 0 0 (Some zero_reader)
     = (replicate 6 Byte.x00 ++ [Byte.x80; Byte.x00; Byte.x80]
        ++ replicate 7 Byte.x00, None).
Proof. vm_compute. repeat split. Qed.

(** ** C4: the sequence state *)

(** C4.  Every call of [NewV8TimeBased], whatever its reader does, leaves
    the state as follows: on the tick [lastTimestamp] the counter is
    incremented modulo [2^16] and the tick stays; on any other tick, a
    smaller one included, the tick is stored and the counter is 0. *)
Theorem sequence_state_step (st : SeqState) (now : Z) (random : option Reader) :
  let t := uint64 now in
  let st' := snd (NewV8TimeBased st now random) in
  (t = lastTimestamp st ->
     lastTimestamp st' = lastTimestamp st
     /\ sequence st' = (sequence st + 1) mod 2 ^ 16)
  /\ (t <> lastTimestamp st -> lastTimestamp st' = t /\ sequence st' = 0)
  /\ (t < lastTimestamp st -> lastTimestamp st' = t /\ sequence st' = 0).
Proof.
  intros t st'.
  assert (st' = next_state st t) as ->.
  { unfold st', NewV8TimeBased. fold t.
    destruct random as [r|]; [|reflexivity].
    destruct (io.ReadFull r 10 _) as [? [?|]]; reflexivity. }
  unfold next_state.
  destruct (Z.eqb_spec t (lastTimestamp st)) as [E|E]; simpl;
    repeat split; intros; try reflexivity; lia.
Qed.

Lemma sequence_state_step_witness :
  (let st' := snd (NewV8TimeBased (mkSeqState 7 65535) 7 (Some short_reader)) in
   lastTimestamp st' = 7 /\ sequence st' = (65535 + 1) mod 2 ^ 16)
  /\ (let st' := snd (NewV8TimeBased (mkSeqState 7 3) 9 None) in
      lastTimestamp st' = 9 /\ sequence st' = 0)
  /\ (let st' := snd (NewV8TimeBased (mkSeqState 7 3) 5 None) in
      lastTimestamp st' = 5 /\ sequence st' = 0).
Proof.
  split; [|split].
  - apply (proj1 (sequence_state_step (mkSeqState 7 65535) 7 (Some short_reader))).
    reflexivity.
  - apply (proj1 (proj2 (sequence_state_step (mkSeqState 7 3) 9 None))).
    vm_compute. lia.
  - apply (proj2 (proj2 (sequence_state_step (mkSeqState 7 3) 5 None))).
    vm_compute. reflexivity.
Defined.

(** ** C5: two calls on one tick *)

(** C5.  Two successive successful calls of [NewV8TimeBased] that observe
    the same tick, the first of them on a tick other than [lastTimestamp]:
    bytes 8-9, the first two bytes of the span [uuid[8:]] that holds
    custom_c (bits 64-79 of the identifier), spell 0 in the first identifier
    and 1 in the second, and bytes 0-5 are the same in both. *)
Theorem same_tick_counts_0_then_1
    (st st1 st2 : SeqState) (now : Z) (r1 r2 : option Reader) (u1 u2 : UUID) :
  uint64 now <> lastTimestamp st ->
  NewV8TimeBased st now r1 = ((u1, None), st1) ->
  NewV8TimeBased st1 now r2 = ((u2, None), st2) ->
  (BigEndian.Uint16 (slice 8 10 u1) = 0 /\ bits 64 79 u1 = 0)
  /\ (BigEndian.Uint16 (slice 8 10 u2) = 1 /\ bits 64 79 u2 = 1)
  /\ slice 0 6 u1 = slice 0 6 u2.
Proof.
  intros Ht H1 H2.
  apply NewV8TimeBased_ok in H1 as [(tl1 & -> & L1) ->].
  apply NewV8TimeBased_ok in H2 as [(tl2 & -> & L2) _].
  rewrite (next_state_fresh st _ Ht).
  rewrite (next_state_same (mkSeqState (uint64 now) 0) (uint64 now) eq_refl).
  do 6 (uncons tl1 L1). do 6 (uncons tl2 L2).
  destruct tl1; [|simpl in L1; lia]. destruct tl2; [|simpl in L2; lia].
  cbn [time_based_head app sequence].
  rewrite !bits_64_79_bytes. repeat split.
Qed.

Lemma same_tick_counts_0_then_1_witness :
  let c1 := NewV8TimeBased (mkSeqState 0 0) 1700000000000000000 None in
  let c2 := NewV8TimeBased (snd c1) 1700000000000000000 (Some zero_reader) in
  (BigEndian.Uint16 (slice 8 10 (fst (fst c1))) = 0
   /\ bits 64 79 (fst (fst c1)) = 0)
  /\ (BigEndian.Uint16 (slice 8 10 (fst (fst c2))) = 1
      /\ bits 64 79 (fst (fst c2)) = 1)
  /\ slice 0 6 (fst (fst c1)) = slice 0 6 (fst (fst c2)).
Proof.
  intros c1 c2.
  apply (same_tick_counts_0_then_1
           (mkSeqState 0 0) (snd c1) (snd c2) 1700000000000000000
           None (Some zero_reader)).
  - vm_compute. lia.
  - reflexivity.
  - reflexivity.
Defined.

(** ** C6: the sample identifier of the split-field generator *)

(** C6, as stated, fails: the first eight bytes of the sample identifier are
    not the seven bytes the spec lists, nor are the first seven; byte 0 is
    0x00. *)
Lemma sample_bytes_not_as_listed :
  let listed := [Byte.x01; Byte.x02; Byte.x03; Byte.x04; Byte.x05;
                 Byte.x80; Byte.xab] in
  snd sample_result = None
  /\ bool_decide (take 8 (fst sample_result) = listed) = false
  /\ bool_decide (take 7 (fst sample_result) = listed) = false
  /\ fst sample_result !!! 0%nat = Byte.x00.
Proof. vm_compute. repeat split. Qed.

(** C6, amended.  With [customA = 0x0102030405], [customB = 0x0AB] and a
    reader whose next eight bytes are zero, the call succeeds and the first
    eight bytes are 00 01 02 03 04 05 80 AB: custom_a takes six bytes, so the
    40-bit value is preceded by a zero byte. *)
Theorem sample_first_eight_bytes (rander : Reader) (rest : list byte) (e : error) :
  let random := mkReader (replicate 8 Byte.x00 ++ rest) e in
  let r := NewV8FromReader rander 0x0102030405 0x0AB (Some random) in
  snd r = None
  /\ take 8 (fst r)
     = [Byte.x00; Byte.x01; Byte.x02; Byte.x03; Byte.x04; Byte.x05;
        Byte.x80; Byte.xab].
Proof.
  intros random r. unfold r.
  erewrite NewV8FromReader_success by reflexivity.
  split; reflexivity.
Qed.

(** ** C7: failure of the random source *)

(** C7.  When the reader cannot deliver the bytes a generator asks of it (16
    for [NewV8], 8 for [NewV8FromReader], 6 for [NewV8TimeBased]), the
    generator returns [Nil] and the error [io.ReadFull] reported; what was
    read into the buffer before the failure is not returned.  [NewV8] itself
    hands back the pair [NewRandom] returned with the error, untouched. *)
Theorem failure_returns_Nil :
  (forall (uuid : UUID) (err : error),
      NewV8_of (uuid, Some err) = (uuid, Some err))
  /\ (forall rander : Reader,
         ~ delivers rander 16 ->
         exists err, io.read_error rander 16 = Some err
                     /\ NewV8 rander = (Nil, Some err))
  /\ (forall (rander : Reader) (customA customB : Z) (random : option Reader),
         ~ delivers (source rander random) 8 ->
         exists err, io.read_error (source rander random) 8 = Some err
                     /\ NewV8FromReader rander customA customB random
                        = (Nil, Some err))
  /\ (forall (st : SeqState) (now : Z) (r : Reader),
         ~ delivers r 6 ->
         exists err, io.read_error r 6 = Some err
                     /\ fst (NewV8TimeBased st now (Some r)) = (Nil, Some err)).
Proof.
  split; [reflexivity|]. split; [|split].
  - intros rander H. destruct (NewRandom_failure rander H) as [E Hne].
    unfold NewV8. rewrite E.
    destruct (io.read_error rander 16) as [err|]; [|contradiction].
    exists err. split; reflexivity.
  - intros rander customA customB random H.
    destruct (NewV8FromReader_failure rander customA customB random H)
      as [E Hne].
    rewrite E.
    destruct (io.read_error (source rander random) 8) as [err|];
      [|contradiction].
    exists err. split; reflexivity.
  - intros st now r H.
    destruct (NewV8TimeBased_failure st now r H) as [E Hne]. rewrite E.
    destruct (io.read_error r 6) as [err|]; [|contradiction].
    exists err. split; reflexivity.
Qed.

Lemma failure_returns_Nil_witness :
  (exists err, io.read_error short_reader 16 = Some err
               /\ NewV8 short_reader = (Nil, Some err))
  /\ (exists err, io.read_error short_reader 8 = Some err
                  /\ NewV8FromReader zero_reader 1 2 (Some short_reader)
                     = (Nil, Some err))
  /\ (exists err, io.read_error short_reader 6 = Some err
                  /\ fst (NewV8TimeBased (mkSeqState 0 0) 1 (Some short_reader))
                     = (Nil, Some err)).
Proof.
  pose proof failure_returns_Nil as (_ & H1 & H2 & H3).
  split; [|split].
  - apply H1. unfold delivers. simpl. lia.
  - apply (H2 zero_reader 1 2 (Some short_reader)). unfold delivers. simpl. lia.
  - apply H3. unfold delivers. simpl. lia.
Defined.

(** ** C8: reading the fields back *)

(** C8.  From a successful [NewV8FromReader] identifier, bits 0-47 give
    [customA mod 2^48], bits 52-63 give [customB mod 2^12], and bits 66-127
    give the low 62 bits of the eight bytes the reader delivered. *)
Theorem fields_round_trip
    (rander : Reader) (customA customB : Z) (random : option Reader) (u : UUID) :
  NewV8FromReader rander customA customB random = (u, None) ->
  custom_a u = customA mod 2 ^ 48
  /\ custom_b u = customB mod 2 ^ 12
  /\ custom_c u = be_value (take 8 (pending (source rander random))) mod 2 ^ 62.
Proof.
  intros H. pose proof (NewV8FromReader_ok_delivers _ _ _ _ _ H) as D.
  unfold delivers in D.
  destruct (pending (source rander random)) as [|? l] eqn:E; [simpl in D; lia|].
  simpl in D. do 7 (uncons l D).
  rewrite (NewV8FromReader_success _ _ _ _ _ _ _ _ _ _ _ _ _ E) in H.
  injection H as <-.
  rewrite custom_a_bytes, custom_b_bytes, custom_c_bytes. repeat split.
  - apply Arith.low48.
  - rewrite (Arith.low16 (Z.lor (uint16 customB) 0x8000)).
    rewrite Z.mod_mod_divide by (exists (2 ^ 4); reflexivity).
    apply Arith.custom_b_low12.
  - apply Arith.variant_keeps_low62.
Qed.

Lemma fields_round_trip_witness :
  custom_a (fst sample_result) = 0x0102030405 mod 2 ^ 48
  /\ custom_b (fst sample_result) = 0x0AB mod 2 ^ 12
  /\ custom_c (fst sample_result)
     = be_value (take 8 (pending zero_reader)) mod 2 ^ 62.
Proof.
  apply (fields_round_trip zero_reader 0x0102030405 0x0AB (Some zero_reader)).
  reflexivity.
Defined.

(** ** C9: when the time-based generator fails *)

(** C9.  [NewV8TimeBased] returns an error exactly when it is given a reader
    and that reader does not deliver the six bytes asked of it; with no
    reader it succeeds and bytes 10-15 are zero. *)
Theorem time_based_error_iff (st : SeqState) (now : Z) :
  (forall random : option Reader,
      snd (fst (NewV8TimeBased st now random)) <> None
      <-> exists r : Reader, random = Some r /\ ~ delivers r 6)
  /\ snd (fst (NewV8TimeBased st now None)) = None
  /\ slice 10 16 (fst (fst (NewV8TimeBased st now None)))
     = replicate 6 Byte.x00.
Proof.
  split; [|split; reflexivity].
  intros [r|]; split.
  - intros H. exists r. split; [reflexivity|]. intros D.
    unfold delivers in D. destruct r as [l e]; simpl in D. do 6 (uncons l D).
    erewrite NewV8TimeBased_success in H by reflexivity. apply H. reflexivity.
  - intros (r' & [= <-] & D).
    destruct (NewV8TimeBased_failure st now r D) as [E Hne]. rewrite E.
    exact Hne.
  - intros H. exfalso. apply H. reflexivity.
  - intros (r' & [=] & _).
Qed.

(** ** C10: makeV8 and the length of its buffer *)

(** C10.  On a buffer of at least 16 bytes [makeV8] runs to completion, every
    index and slice expression in range, and the buffer keeps its length; on
    a shorter one it panics at [uuid[15]], with the buffer and the random
    source as they were. *)
Theorem makeV8_bounds (customA customB customC : option (list byte)) (m : Mem) :
  ((16 <= length (buf m))%nat ->
     exists m' : Mem,
       makeV8 customA customB customC m = Done m'
       /\ length (buf m') = length (buf m))
  /\ ((length (buf m) < 16)%nat ->
        makeV8 customA customB customC m = Panic m).
Proof.
  split.
  - apply makeV8Facts.makeV8_safe.
  - apply makeV8Facts.makeV8_panics.
Qed.

Lemma makeV8_bounds_witness :
  (exists m' : Mem,
      makeV8 None (Some [Byte.x0a; Byte.xbc]) None (mkMem Nil zero_rand) = Done m'
      /\ length (buf m') = 16%nat)
  /\ makeV8 None (Some [Byte.x0a; Byte.xbc]) None
            (mkMem (replicate 15 Byte.xff) zero_rand)
     = Panic (mkMem (replicate 15 Byte.xff) zero_rand).
Proof.
  split.
  - apply (proj1 (makeV8_bounds None (Some [Byte.x0a; Byte.xbc]) None
                                (mkMem Nil zero_rand))).
    simpl. lia.
  - apply (proj2 (makeV8_bounds None (Some [Byte.x0a; Byte.xbc]) None
                                (mkMem (replicate 15 Byte.xff) zero_rand))).
    simpl. lia.
Defined.

(** * Further properties *)

(** ** More on bytes *)

Module U8More.

Lemma set_version_value (b : byte) :
  U8.to_Z (set_version b) = 128 + U8.to_Z b mod 16.
Proof. destruct b; reflexivity. Qed.

(** [byte(x)] only sees [x] modulo 256. *)
Lemma of_Z_congr (x y : Z) : x mod 256 = y mod 256 -> U8.of_Z x = U8.of_Z y.
Proof. intros H. unfold U8.of_Z. rewrite H. reflexivity. Qed.

End U8More.

(** ** The number a time-based identifier spells *)

Lemma time_based_value (t sq : Z) (tail : list byte) :
  length tail = 6%nat ->
  be_value (time_based_head t sq ++ tail)
  = (t mod 2 ^ 48) * 2 ^ 80 + (2 ^ 15 + t mod 2 ^ 12) * 2 ^ 64
    + (sq mod 2 ^ 16) * 2 ^ 48 + be_value tail.
Proof.
  intros L. do 6 (uncons tail L). destruct tail; [|simpl in L; lia].
  cbn [time_based_head app]. rewrite be_value_16, Arith.low48.
  assert (be_value [set_version (U8.of_Z (Z.shiftr t 8)); U8.of_Z t]
          = 2 ^ 15 + t mod 2 ^ 12) as ->.
  { unfold be_value. cbn [foldl].
    rewrite U8More.set_version_value, !U8Facts.to_of_Z, Arith.shiftr_div by lia.
    Z.div_mod_to_equations. lia. }
  assert (be_value [U8.of_Z (Z.shiftr sq 8); U8.of_Z sq; b; b0; b1; b2; b3; b4]
          = (sq mod 2 ^ 16) * 2 ^ 48 + be_value [b; b0; b1; b2; b3; b4]) as ->.
  { unfold be_value. cbn [foldl].
    rewrite !U8Facts.to_of_Z, Arith.shiftr_div by lia.
    Z.div_mod_to_equations. lia. }
  ring.
Qed.

(** ** NewV8 *)

(** X1.  When [NewRandom] returns sixteen bytes and no error, [NewV8] returns
    them with version 8 and variant [10] stamped and nothing else changed:
    the three custom fields are those of the random bytes. *)
Theorem NewV8_stamps_and_keeps_fields (uuid : UUID) :
  length uuid = 16%nat ->
  exists u : UUID,
    NewV8_of (uuid, None) = (u, None)
    /\ length u = 16%nat
    /\ is_v8 u
    /\ custom_a u = custom_a uuid
    /\ custom_b u = custom_b uuid
    /\ custom_c u = custom_c uuid.
Proof.
  intros L. do 16 (uncons uuid L). destruct uuid; [|simpl in L; lia].
  eexists. split; [reflexivity|]. split; [reflexivity|].
  cbn [lookup_total list_lookup_total list_insert insert].
  split; [split; [apply U8Facts.set_version_nibble
                 | apply U8Facts.set_variant_bits]|].
  rewrite !custom_a_bytes, !custom_b_bytes, !custom_c_bytes.
  split; [reflexivity|]. split.
  - unfold be_value. cbn [foldl]. rewrite U8More.set_version_value.
    pose proof (U8Facts.to_Z_range b5). Z.div_mod_to_equations. lia.
  - apply Arith.variant_keeps_low62.
Qed.

Lemma NewV8_stamps_and_keeps_fields_witness :
  exists u : UUID,
    NewV8_of (replicate 16 Byte.xff, None) = (u, None)
    /\ length u = 16%nat
    /\ is_v8 u
    /\ custom_a u = custom_a (replicate 16 Byte.xff)
    /\ custom_b u = custom_b (replicate 16 Byte.xff)
    /\ custom_c u = custom_c (replicate 16 Byte.xff).
Proof.
  apply (NewV8_stamps_and_keeps_fields (replicate 16 Byte.xff)). reflexivity.
Defined.

(** ** NewV8FromReader *)

(** X2.  An identifier [NewV8FromReader] returns always has variant [10];
    it has version 8 exactly when bits 12-14 of [customB] are clear, so for
    every [customB] below [2^12]. *)
Theorem NewV8FromReader_is_v8 (rander : Reader) (customA customB : Z)
    (random : option Reader) (u : UUID) :
  NewV8FromReader rander customA customB random = (u, None) ->
  top_2_bits (u !!! 8%nat) = 2
  /\ (is_v8 u <-> (customB / 2 ^ 12) mod 8 = 0)
  /\ (0 <= customB < 2 ^ 12 -> is_v8 u).
Proof.
  intros H. apply NewV8FromReader_variant in H as [Hvar Hver].
  unfold is_v8. rewrite Hver. split; [exact Hvar|]. split.
  - split.
    + intros [Hn _]. lia.
    + intros Hk. split; [lia | exact Hvar].
  - intros Hb. split; [|exact Hvar]. Z.div_mod_to_equations. lia.
Qed.

Lemma NewV8FromReader_is_v8_witness :
  top_2_bits (fst sample_result !!! 8%nat) = 2
  /\ (is_v8 (fst sample_result) <-> (0x0AB / 2 ^ 12) mod 8 = 0)
  /\ (0 <= 0x0AB < 2 ^ 12 -> is_v8 (fst sample_result)).
Proof.
  apply (NewV8FromReader_is_v8 zero_reader 0x0102030405 0x0AB (Some zero_reader)).
  reflexivity.
Defined.

(** X3.  [NewV8FromReader] fails exactly when the reader it uses, the one
    passed in or else the package's [rander], does not deliver eight
    bytes. *)
Theorem NewV8FromReader_error_iff (rander : Reader) (customA customB : Z)
    (random : option Reader) :
  snd (NewV8FromReader rander customA customB random) <> None
  <-> ~ delivers (source rander random) 8.
Proof.
  split.
  - intros H D. apply H. unfold delivers in D.
    destruct (pending (source rander random)) as [|? l] eqn:E;
      [simpl in D; lia|].
    simpl in D. do 7 (uncons l D).
    rewrite (NewV8FromReader_success _ _ _ _ _ _ _ _ _ _ _ _ _ E). reflexivity.
  - intros D.
    destruct (NewV8FromReader_failure rander customA customB random D)
      as [E Hne].
    rewrite E. exact Hne.
Qed.

(** Two bytes are equal because the integers they come from agree modulo
    256, given what the context knows of them. *)
Ltac same_byte :=
  apply U8More.of_Z_congr;
  rewrite ?Arith.shiftr_div, ?Arith.lor_0x8000 by lia;
  unfold uint16; Z.div_mod_to_equations; lia.

(** X4.  [NewV8FromReader] truncates silently: its result depends on
    [customA] only through its low 48 bits and on [customB] only through its
    low 15 bits. *)
Theorem NewV8FromReader_truncates (rander : Reader) (customA customA' customB customB' : Z)
    (random : option Reader) :
  customA mod 2 ^ 48 = customA' mod 2 ^ 48 ->
  customB mod 2 ^ 15 = customB' mod 2 ^ 15 ->
  NewV8FromReader rander customA customB random
  = NewV8FromReader rander customA' customB' random.
Proof.
  intros Ha Hb.
  destruct (ioFacts.delivers_dec (source rander random) 8) as [D|D].
  - unfold delivers in D.
    destruct (pending (source rander random)) as [|? l] eqn:E;
      [simpl in D; lia|].
    simpl in D. do 7 (uncons l D).
    rewrite !(NewV8FromReader_success _ _ _ _ _ _ _ _ _ _ _ _ _ E).
    replace (U8.of_Z (Z.shiftr customA 40))
      with (U8.of_Z (Z.shiftr customA' 40)) by same_byte.
    replace (U8.of_Z (Z.shiftr customA 32))
      with (U8.of_Z (Z.shiftr customA' 32)) by same_byte.
    replace (U8.of_Z (Z.shiftr customA 24))
      with (U8.of_Z (Z.shiftr customA' 24)) by same_byte.
    replace (U8.of_Z (Z.shiftr customA 16))
      with (U8.of_Z (Z.shiftr customA' 16)) by same_byte.
    replace (U8.of_Z (Z.shiftr customA 8))
      with (U8.of_Z (Z.shiftr customA' 8)) by same_byte.
    replace (U8.of_Z customA) with (U8.of_Z customA') by same_byte.
    replace (U8.of_Z (Z.shiftr (Z.lor (uint16 customB) 0x8000) 8))
      with (U8.of_Z (Z.shiftr (Z.lor (uint16 customB') 0x8000) 8))
      by same_byte.
    replace (U8.of_Z (Z.lor (uint16 customB) 0x8000))
      with (U8.of_Z (Z.lor (uint16 customB') 0x8000)) by same_byte.
    reflexivity.
  - destruct (NewV8FromReader_failure rander customA customB random D)
      as [-> _].
    destruct (NewV8FromReader_failure rander customA' customB' random D)
      as [-> _].
    reflexivity.
Qed.

Lemma NewV8FromReader_truncates_witness :
  NewV8FromReader zero_reader (2 ^ 48 + 5) 0x8ABC None
  = NewV8FromReader zero_reader 5 0x0ABC None.
Proof.
  apply (NewV8FromReader_truncates zero_reader (2 ^ 48 + 5) 5 0x8ABC 0x0ABC None);
    reflexivity.
Defined.

(** ** NewV8TimeBased *)

Lemma NewV8TimeBased_state (st : SeqState) (now : Z) (random : option Reader) :
  snd (NewV8TimeBased st now random) = next_state st (uint64 now).
Proof.
  destruct random as [r|]; [|reflexivity].
  destruct (ioFacts.delivers_dec r 6) as [D|D].
  - unfold delivers in D. destruct r as [l e]; simpl in D. do 6 (uncons l D).
    erewrite NewV8TimeBased_success by reflexivity. reflexivity.
  - destruct (NewV8TimeBased_failure st now r D) as [-> _]. reflexivity.
Qed.

(** The counter [next_state] leaves is a [uint16]. *)
Lemma next_state_sequence_range (st : SeqState) (t : Z) :
  0 <= sequence (next_state st t) < 2 ^ 16.
Proof.
  unfold next_state, uint16. destruct (t =? lastTimestamp st); simpl.
  - apply Z.mod_pos_bound. reflexivity.
  - lia.
Qed.

(** X5.  In every identifier [NewV8TimeBased] returns, custom_a is the low
    48 bits of the clock reading, custom_b its low 12 bits (bytes 6-7 keep
    what [PutUint64] wrote there), the version nibble is 8, and bits 64-79
    are the counter as the call left it. *)
Theorem NewV8TimeBased_fields (st st' : SeqState) (now : Z)
    (random : option Reader) (u : UUID) :
  NewV8TimeBased st now random = ((u, None), st') ->
  custom_a u = uint64 now mod 2 ^ 48
  /\ custom_b u = uint64 now mod 2 ^ 12
  /\ top_nibble (u !!! 6%nat) = 8
  /\ bits 64 79 u = sequence st'.
Proof.
  intros H. apply NewV8TimeBased_ok in H as [(tail & -> & L) ->].
  pose proof (next_state_sequence_range st (uint64 now)) as Hs.
  do 6 (uncons tail L). destruct tail; [|simpl in L; lia].
  cbn [time_based_head app].
  rewrite custom_a_bytes, custom_b_bytes, bits_64_79_bytes.
  repeat split.
  - apply Arith.low48.
  - unfold be_value. cbn [foldl].
    rewrite U8More.set_version_value, !U8Facts.to_of_Z, Arith.shiftr_div by lia.
    Z.div_mod_to_equations. lia.
  - apply U8Facts.set_version_nibble.
  - rewrite Arith.low16. apply Z.mod_small. exact Hs.
Qed.

Lemma NewV8TimeBased_fields_witness :
  let call := NewV8TimeBased (mkSeqState 5 41) 5 (Some zero_reader) in
  custom_a (fst (fst call)) = uint64 5 mod 2 ^ 48
  /\ custom_b (fst (fst call)) = uint64 5 mod 2 ^ 12
  /\ top_nibble (fst (fst call) !!! 6%nat) = 8
  /\ bits 64 79 (fst (fst call)) = sequence (snd call).
Proof.
  intros call.
  apply (NewV8TimeBased_fields (mkSeqState 5 41) (snd call) 5 (Some zero_reader)).
  reflexivity.
Defined.

(** X6.  Bytes 10-15 of a time-based identifier are the first six bytes of
    the reader, verbatim, and custom_c (bits 66-127) is the low 14 bits of
    the counter followed by those six bytes: the counter's top two bits sit
    in the variant position, outside custom_c. *)
Theorem NewV8TimeBased_reader_bytes (st st' : SeqState) (now : Z)
    (r : Reader) (u : UUID) :
  NewV8TimeBased st now (Some r) = ((u, None), st') ->
  slice 10 16 u = take 6 (pending r)
  /\ custom_c u
     = (sequence st' mod 2 ^ 14) * 2 ^ 48 + be_value (take 6 (pending r)).
Proof.
  intros H. destruct (ioFacts.delivers_dec r 6) as [D|D].
  - unfold delivers in D. destruct r as [l e]; simpl in D. do 6 (uncons l D).
    erewrite NewV8TimeBased_success in H by reflexivity.
    injection H as <- <-. split; [reflexivity|].
    cbn [time_based_head app pending]. simpl (take _ _). rewrite take_0, custom_c_bytes.
    unfold be_value. cbn [foldl].
    rewrite !U8Facts.to_of_Z, Arith.shiftr_div by lia.
    pose proof (U8Facts.to_Z_range b). pose proof (U8Facts.to_Z_range b0).
    pose proof (U8Facts.to_Z_range b1). pose proof (U8Facts.to_Z_range b2).
    pose proof (U8Facts.to_Z_range b3). pose proof (U8Facts.to_Z_range b4).
    Z.div_mod_to_equations. lia.
  - destruct (NewV8TimeBased_failure st now r D) as [E Hne].
    rewrite E in H. injection H as _ Herr _. congruence.
Qed.

Lemma NewV8TimeBased_reader_bytes_witness :
  let r := mkReader [Byte.x11; Byte.x22; Byte.x33; Byte.x44; Byte.x55;
                     Byte.x66; Byte.x77] EOF in
  let call := NewV8TimeBased (mkSeqState 9 0xFFFE) 9 (Some r) in
  slice 10 16 (fst (fst call)) = take 6 (pending r)
  /\ custom_c (fst (fst call))
     = (sequence (snd call) mod 2 ^ 14) * 2 ^ 48 + be_value (take 6 (pending r)).
Proof.
  intros r call.
  apply (NewV8TimeBased_reader_bytes (mkSeqState 9 0xFFFE) (snd call) 9 r).
  reflexivity.
Defined.

(** ** Successive calls of NewV8TimeBased *)

Lemma run_cons (st : SeqState) (now : Z) (random : option Reader)
    (rest : list (Z * option Reader)) :
  run st ((now, random) :: rest)
  = (fst (NewV8TimeBased st now random)
       :: fst (run (next_state st (uint64 now)) rest),
     snd (run (next_state st (uint64 now)) rest)).
Proof.
  cbn [run]. rewrite <- (NewV8TimeBased_state st now random).
  destruct (NewV8TimeBased st now random) as [res st1]. cbn [fst snd].
  destruct (run st1 rest) as [out st2]. reflexivity.
Qed.

(** X7.  Calls that all observe the tick the state already holds advance the
    counter by one each, modulo [2^16], whether or not their readers fail,
    and leave the tick in place. *)
Theorem same_tick_counter (st : SeqState) (now : Z)
    (readers : list (option Reader)) :
  uint64 now = lastTimestamp st ->
  0 <= sequence st < 2 ^ 16 ->
  let st' := snd (run st (same_tick now readers)) in
  lastTimestamp st' = lastTimestamp st
  /\ sequence st' = (sequence st + Z.of_nat (length readers)) mod 2 ^ 16.
Proof.
  revert st. induction readers as [|r readers IH]; intros st Ht Hs st'.
  - subst st'. cbn. split; [reflexivity|]. rewrite Z.add_0_r.
    symmetry. apply Z.mod_small. exact Hs.
  - subst st'. cbn [same_tick map]. rewrite run_cons. cbn [snd].
    rewrite (next_state_same st _ Ht).
    destruct (IH (mkSeqState (uint64 now) ((sequence st + 1) mod 2 ^ 16)))
      as [IH1 IH2].
    + reflexivity.
    + apply Z.mod_pos_bound. reflexivity.
    + fold (same_tick now readers). rewrite IH1, IH2. cbn [lastTimestamp sequence].
      split; [assumption|]. cbn [length].
      rewrite Z.add_mod_idemp_l by lia. f_equal. lia.
Qed.

Lemma same_tick_counter_witness :
  let st' := snd (run (mkSeqState 7 65534)
                      (same_tick 7 [None; Some short_reader; Some zero_reader])) in
  lastTimestamp st' = 7
  /\ sequence st' = (65534 + Z.of_nat 3) mod 2 ^ 16.
Proof.
  apply (same_tick_counter (mkSeqState 7 65534) 7
           [None; Some short_reader; Some zero_reader]).
  - reflexivity.
  - cbn. lia.
Defined.

(** The [i]-th result of calls on the tick the state holds, when it is an
    identifier, carries the counter [i + 1] steps on. *)
Lemma same_tick_nth (now : Z) (readers : list (option Reader)) :
  forall (st : SeqState) (i : nat) (u : UUID),
    uint64 now = lastTimestamp st ->
    fst (run st (same_tick now readers)) !! i = Some (u, None) ->
    exists tail : list byte,
      u = time_based_head (uint64 now)
            ((sequence st + Z.of_nat i + 1) mod 2 ^ 16) ++ tail
      /\ length tail = 6%nat.
Proof.
  induction readers as [|r readers IH]; intros st i u Ht H.
  - discriminate H.
  - cbn [same_tick map] in H. rewrite run_cons in H. cbn [fst] in H.
    fold (same_tick now readers) in H.
    rewrite (next_state_same st _ Ht) in H.
    destruct i as [|i].
    + cbn in H. injection H as H.
      destruct (NewV8TimeBased st now r) as [res st1] eqn:E. cbn in H. subst res.
      apply NewV8TimeBased_ok in E as [(tail & -> & L) _].
      exists tail. split; [|exact L].
      rewrite (next_state_same st _ Ht). cbn [sequence].
      do 2 f_equal. f_equal. lia.
    + cbn [lookup list_lookup] in H.
      apply IH in H as (tail & -> & L); [|reflexivity].
      exists tail. split; [|exact L]. cbn [sequence].
      do 2 f_equal. rewrite <- Z.add_assoc, Z.add_mod_idemp_l by lia.
      f_equal. lia.
Qed.

(** The same on a fresh tick: the [i]-th identifier carries the counter
    [i]. *)
Lemma fresh_tick_nth (st : SeqState) (now : Z) (readers : list (option Reader))
    (i : nat) (u : UUID) :
  uint64 now <> lastTimestamp st ->
  fst (run st (same_tick now readers)) !! i = Some (u, None) ->
  exists tail : list byte,
    u = time_based_head (uint64 now) (Z.of_nat i mod 2 ^ 16) ++ tail
    /\ length tail = 6%nat.
Proof.
  intros Ht H. destruct readers as [|r readers]; [discriminate H|].
  cbn [same_tick map] in H. rewrite run_cons in H. cbn [fst] in H.
  fold (same_tick now readers) in H.
  rewrite (next_state_fresh st _ Ht) in H.
  destruct i as [|i].
  - cbn in H. injection H as H.
    destruct (NewV8TimeBased st now r) as [res st1] eqn:E. cbn in H. subst res.
    apply NewV8TimeBased_ok in E as [(tail & -> & L) _].
    exists tail. split; [|exact L].
    rewrite (next_state_fresh st _ Ht). reflexivity.
  - cbn [lookup list_lookup] in H.
    apply same_tick_nth in H as (tail & -> & L); [|reflexivity].
    exists tail. split; [|exact L]. cbn [sequence].
    do 2 f_equal. f_equal. lia.
Qed.

(** X8.  Among the first 65536 calls on a fresh tick, the identifiers
    returned increase strictly as 128-bit numbers in call order, whatever the
    readers supply; in particular no two of them are equal. *)
Theorem fresh_tick_identifiers_increase (st st' : SeqState) (now : Z)
    (readers : list (option Reader)) (out : list result)
    (i j : nat) (ui uj : UUID) :
  uint64 now <> lastTimestamp st ->
  run st (same_tick now readers) = (out, st') ->
  (i < j)%nat ->
  Z.of_nat j < 2 ^ 16 ->
  out !! i = Some (ui, None) ->
  out !! j = Some (uj, None) ->
  be_value ui < be_value uj.
Proof.
  intros Ht Hrun Hij Hj16 Hi Hj.
  assert (out = fst (run st (same_tick now readers))) as ->
    by (rewrite Hrun; reflexivity).
  apply (fresh_tick_nth _ _ _ _ _ Ht) in Hi as (ti & -> & Li).
  apply (fresh_tick_nth _ _ _ _ _ Ht) in Hj as (tj & -> & Lj).
  rewrite !time_based_value by assumption.
  pose proof (be_value_bound ti) as Bi. pose proof (be_value_bound tj) as Bj.
  rewrite Li in Bi. rewrite Lj in Bj.
  change (256 ^ Z.of_nat 6) with (2 ^ 48) in *.
  rewrite !(Z.mod_small (Z.of_nat _) (2 ^ 16)) by lia.
  nia.
Qed.

Lemma fresh_tick_identifiers_increase_witness :
  let calls := same_tick 1700000000000000000
                         [Some zero_reader; Some short_reader; None] in
  let out := fst (run (mkSeqState 0 0) calls) in
  be_value (fst (out !!! 0%nat)) < be_value (fst (out !!! 2%nat)).
Proof.
  intros calls out.
  apply (fresh_tick_identifiers_increase
           (mkSeqState 0 0) (snd (run (mkSeqState 0 0) calls))
           1700000000000000000
           [Some zero_reader; Some short_reader; None] out 0 2).
  - vm_compute. lia.
  - reflexivity.
  - lia.
  - simpl. lia.
  - reflexivity.
  - reflexivity.
Defined.

(** X9.  The counter wraps without notice: with the counter at 65535 on the
    current tick, a call without reader returns the very identifier the
    first call on that tick returned. *)
Theorem wrapped_counter_repeats_identifier (st : SeqState) (now : Z) :
  uint64 now <> lastTimestamp st ->
  fst (NewV8TimeBased (mkSeqState (uint64 now) 65535) now None)
  = fst (NewV8TimeBased st now None).
Proof.
  intros Ht. rewrite !NewV8TimeBased_nil. cbn [fst].
  rewrite (next_state_fresh st _ Ht).
  rewrite (next_state_same (mkSeqState (uint64 now) 65535) (uint64 now) eq_refl).
  reflexivity.
Qed.

Lemma wrapped_counter_repeats_identifier_witness :
  fst (NewV8TimeBased (mkSeqState (uint64 42) 65535) 42 None)
  = fst (NewV8TimeBased (mkSeqState 0 0) 42 None).
Proof.
  apply (wrapped_counter_repeats_identifier (mkSeqState 0 0) 42).
  vm_compute. lia.
Defined.

(** X10.  Identifiers order by the low 48 bits of the clock reading, whatever
    the counter and the readers: a reading whose low 48 bits are smaller
    gives a smaller identifier, also when it is the later call (the clock
    went back, or passed a multiple of [2^48]). *)
Theorem identifiers_order_by_low_48_bits
    (st1 st1' st2 st2' : SeqState) (now1 now2 : Z)
    (r1 r2 : option Reader) (u1 u2 : UUID) :
  uint64 now1 mod 2 ^ 48 < uint64 now2 mod 2 ^ 48 ->
  NewV8TimeBased st1 now1 r1 = ((u1, None), st1') ->
  NewV8TimeBased st2 now2 r2 = ((u2, None), st2') ->
  be_value u1 < be_value u2.
Proof.
  intros Hlt H1 H2.
  apply NewV8TimeBased_ok in H1 as [(t1 & -> & L1) _].
  apply NewV8TimeBased_ok in H2 as [(t2 & -> & L2) _].
  rewrite !time_based_value by assumption.
  pose proof (be_value_bound t1) as B1. pose proof (be_value_bound t2) as B2.
  rewrite L1 in B1. rewrite L2 in B2.
  change (256 ^ Z.of_nat 6) with (2 ^ 48) in *.
  Z.div_mod_to_equations. lia.
Qed.

Lemma identifiers_order_by_low_48_bits_witness :
  let first := NewV8TimeBased (mkSeqState 0 0) 1000 None in
  let later := NewV8TimeBased (snd first) 999 (Some zero_reader) in
  be_value (fst (fst later)) < be_value (fst (fst first)).
Proof.
  intros first later.
  apply (identifiers_order_by_low_48_bits
           (snd first) (snd later) (mkSeqState 0 0) (snd first)
           999 1000 (Some zero_reader) None).
  - vm_compute. reflexivity.
  - reflexivity.
  - reflexivity.
Defined.

(** X14.  The variant bits of a time-based identifier are the top two bits
    of the counter, which [PutUint16] writes over the stamped byte 8: the
    identifier has variant [10] exactly when the counter the call left lies
    in [0x8000 .. 0xBFFF]. *)
Theorem NewV8TimeBased_variant_iff (st st' : SeqState) (now : Z)
    (random : option Reader) (u : UUID) :
  NewV8TimeBased st now random = ((u, None), st') ->
  top_2_bits (u !!! 8%nat) = 2 <-> 0x8000 <= sequence st' < 0xC000.
Proof.
  intros H. pose proof H as H'.
  apply NewV8TimeBased_version in H as [_ ->].
  apply NewV8TimeBased_ok in H' as [_ ->].
  pose proof (next_state_sequence_range st (uint64 now)).
  split; intros; Z.div_mod_to_equations; lia.
Qed.

Lemma NewV8TimeBased_variant_iff_witness :
  let call := NewV8TimeBased (mkSeqState 3 0x7FFF) 3 None in
  top_2_bits (fst (fst call) !!! 8%nat) = 2
  <-> 0x8000 <= sequence (snd call) < 0xC000.
Proof.
  intros call.
  apply (NewV8TimeBased_variant_iff (mkSeqState 3 0x7FFF) (snd call) 3 None).
  reflexivity.
Defined.

(** ** makeV8 with supplied spans *)

Module makeV8More.

Lemma length_copy (lo hi : nat) (src s : list byte) :
  length (copy lo hi src s) = length s.
Proof. apply length_inserts. Qed.

Lemma copy_lookup_before (lo hi i : nat) (src s : list byte) :
  (i < lo)%nat -> copy lo hi src s !!! i = s !!! i.
Proof. intros H. apply list_lookup_total_inserts_lt. exact H. Qed.




Lemma bounds_check_ok (i : nat) (m : Mem) :
  (i < length (buf m))%nat -> bounds_check i m = Done m.
Proof. intros H. unfold bounds_check. destruct (decide _); [reflexivity | lia]. Qed.

Lemma update_ok (i : nat) (f : byte -> byte) (m : Mem) :
  (i < length (buf m))%nat ->
  update i f m = Done {| buf := <[i := f (buf m !!! i)]> (buf m); rng := rng m |}.
Proof. intros H. unfold update. destruct (decide _); [reflexivity | lia]. Qed.

Lemma copy_to_ok (lo : nat) (hi : option nat) (src : list byte) (m : Mem) :
  (lo <= upper hi m <= length (buf m))%nat ->
  copy_to lo hi src m
  = Done {| buf := copy lo (upper hi m) src (buf m); rng := rng m |}.
Proof.
  intros H. unfold copy_to, slice_ok.
  destruct (decide _); [reflexivity | contradiction].
Qed.

(** Side conditions on lengths after copies and stamps. *)
Ltac lengths :=
  cbn [buf rng upper];
  rewrite ?length_insert, ?length_copy, ?length_insert, ?length_copy; lia.

Lemma makeV8_supplied (a b c s : list byte) (g : Rand) :
  (16 <= length s)%nat ->
  makeV8 (Some a) (Some b) (Some c) (mkMem s g) = Done (mkMem (filled a b c s) g).
Proof.
  intros L. unfold makeV8, then_, fill.
  rewrite bounds_check_ok by lengths.
  rewrite copy_to_ok by lengths.
  rewrite update_ok by lengths.
  rewrite copy_to_ok by lengths.
  rewrite update_ok by lengths.
  rewrite copy_to_ok by lengths.
  reflexivity.
Qed.

End makeV8More.





(** X13.  [makeV8] neither pads nor rejects a span of the wrong length: a
    span longer than its field is cut to the field's width, and where
    [customA] is shorter than six bytes the rest of bytes 0-5 stays as the
    buffer had it. *)
Theorem makeV8_span_lengths (a b c s : list byte) (g : Rand) :
  (16 <= length s)%nat ->
  exists s' : list byte,
    makeV8 (Some a) (Some b) (Some c) (mkMem s g) = Done (mkMem s' g)
    /\ makeV8 (Some (take 6 a)) (Some (take 2 b))
              (Some (take (length s - 8) c)) (mkMem s g)
       = Done (mkMem s' g)
    /\ (forall i : nat, (length a <= i < 6)%nat -> s' !!! i = s !!! i).
Proof.
  intros L. exists (filled a b c s).
  rewrite !makeV8More.makeV8_supplied by exact L. repeat split.
  - do 2 f_equal. unfold filled, copy.
    rewrite !length_insert, !length_inserts, !length_insert, !length_inserts.
    change (6 - 0)%nat with 6%nat. change (8 - 6)%nat with 2%nat.
    rewrite !take_take, !Nat.min_id. reflexivity.
  - intros i Hi. unfold filled.
    rewrite makeV8More.copy_lookup_before by lia.
    rewrite list_lookup_total_insert_ne by lia.
    rewrite makeV8More.copy_lookup_before by lia.
    rewrite list_lookup_total_insert_ne by lia.
    unfold copy. apply list_lookup_total_inserts_ge.
    rewrite length_take. lia.
Qed.

Lemma makeV8_span_lengths_witness :
  let s := replicate 16 Byte.xff in
  let a := [Byte.x01; Byte.x02] in
  let b := [Byte.x03; Byte.x04; Byte.x05] in
  let c := replicate 9 Byte.x06 in
  exists s' : list byte,
    makeV8 (Some a) (Some b) (Some c) (mkMem s zero_rand)
    = Done (mkMem s' zero_rand)
    /\ makeV8 (Some (take 6 a)) (Some (take 2 b))
              (Some (take (length s - 8) c)) (mkMem s zero_rand)
       = Done (mkMem s' zero_rand)
    /\ (forall i : nat, (length a <= i < 6)%nat -> s' !!! i = s !!! i).
Proof.
  intros s a b c. apply (makeV8_span_lengths a b c s zero_rand). simpl. lia.
Defined.
